(** * graph.py: the line-oriented graph parser

    A shallow embedding of [parse_graph] from [src/graph.py] and the
    properties of its result.

    Python text is a sequence of Unicode code points, so a [str] is a list
    of code points ([N]).  [parse_graph] receives a path and reads the file;
    here it receives the decoded text of that file.  The only exception the
    loop can raise once the file is open is [IndexError], from the
    subscripts [parts[1]] and [parts[2]]. *)

From Stdlib Require Import String Ascii NArith.
From stdpp Require Import gmap list.

Open Scope N_scope.

(** ** Text *)

Abbreviation str := (list N).

Definition LF : N := 0x0A.
Definition CR : N := 0x0D.

(** A literal of the source, code point by code point. *)
Definition str_of (s : string) : str :=
  map N_of_ascii (list_ascii_of_string s).

(** [str.isspace] on one code point: the code points Python's [strip()] and
    [split()] without arguments treat as whitespace. *)
Definition isspace (c : N) : bool :=
  ((0x09 <=? c) && (c <=? 0x0D))
  || ((0x1C <=? c) && (c <=? 0x20))
  || (c =? 0x85) || (c =? 0xA0) || (c =? 0x1680)
  || ((0x2000 <=? c) && (c <=? 0x200A))
  || (c =? 0x2028) || (c =? 0x2029) || (c =? 0x202F)
  || (c =? 0x205F) || (c =? 0x3000).

(** [s.lstrip()], [s.rstrip()], [s.strip()]. *)
Fixpoint lstrip (s : str) : str :=
  match s with
  | c :: s' => if isspace c then lstrip s' else s
  | [] => []
  end.

Definition rstrip (s : str) : str := rev (lstrip (rev s)).

Definition strip (s : str) : str := rstrip (lstrip s).

(** [s.split()]: the scanning loop of the whitespace split.  [cur] holds the
    token being read, last character first; a token ends at a whitespace
    character or at the end of the text, and empty tokens are not produced. *)
Fixpoint split_from (cur : str) (s : str) : list str :=
  match s with
  | [] => match cur with [] => [] | _ => [rev cur] end
  | c :: s' =>
      if isspace c
      then match cur with
           | [] => split_from [] s'
           | _ => rev cur :: split_from [] s'
           end
      else split_from (c :: cur) s'
  end.

Definition split (s : str) : list str := split_from [] s.

(** ** Reading the file line by line

    [open(file_path, 'r')] reads with universal newlines: a carriage return,
    alone or followed by a line feed, reaches the program as one line feed. *)
Fixpoint translate_newlines (s : str) : str :=
  match s with
  | [] => []
  | c :: s' =>
      if c =? CR
      then match s' with
           | c' :: _ => if c' =? LF then translate_newlines s'
                        else LF :: translate_newlines s'
           | [] => [LF]
           end
      else c :: translate_newlines s'
  end.

(** [for line in file]: each line keeps its line feed; a last line without
    one is yielded as it is, and an empty rest yields nothing. *)
Fixpoint lines_from (cur : str) (s : str) : list str :=
  match s with
  | [] => match cur with [] => [] | _ => [rev cur] end
  | c :: s' =>
      if c =? LF then rev (c :: cur) :: lines_from [] s'
      else lines_from (c :: cur) s'
  end.

Definition readlines (content : str) : list str :=
  lines_from [] (translate_newlines content).

(** ** Exceptions *)

Inductive exn : Set := IndexError.

Inductive result (A : Type) : Type :=
| Ok (a : A)
| Raise (e : exn).

Arguments Ok {A} a.
Arguments Raise {A} e.

Definition bind {A B} (m : result A) (k : A → result B) : result B :=
  match m with
  | Ok a => k a
  | Raise e => Raise e
  end.

Notation "x ←! m ; k" := (bind m (fun x => k))
  (at level 100, m at next level, right associativity).

(** [l[i]] for a constant index [i >= 0]. *)
Definition index {A} (l : list A) (i : nat) : result A :=
  match l !! i with
  | Some x => Ok x
  | None => Raise IndexError
  end.

(** ** parse_graph *)

(** The two locals the loop updates: [vertices] (a set) and [edges]
    (a list of pairs). *)
Abbreviation graph := (gset str * list (str * str))%type.

Definition kw_vertex : str := Eval cbv in str_of "vertex".
Definition kw_edge : str := Eval cbv in str_of "edge".

(** One iteration of [for line in file]. *)
Definition loop_body (st : graph) (line : str) : result graph :=
  let '(vertices, edges) := st in
  let parts := split (strip line) in
  match parts with
  | [] => Ok st
  | _ =>
      p0 ←! index parts 0;
      if decide (p0 = kw_vertex) then
        p1 ←! index parts 1;
        Ok ({[ p1 ]} ∪ vertices, edges)
      else if decide (p0 = kw_edge) then
        p1 ←! index parts 1;
        p2 ←! index parts 2;
        Ok (vertices, edges ++ [(p1, p2)])
      else Ok st
  end.

Fixpoint for_lines (st : graph) (lines : list str) : result graph :=
  match lines with
  | [] => Ok st
  | line :: rest => st' ←! loop_body st line; for_lines st' rest
  end.

Definition parse_graph (content : str) : result graph :=
  for_lines (∅, []) (readlines content).

(** ** A line as the loop sees it

    The definitions of this section are used to state properties;
    [loop_body] does not call them.  [loop_body_classify] below shows that
    [classify] reads a line as [loop_body] does. *)

(** The tokens of a line: [line.strip().split()]. *)
Definition tokens (line : str) : list str := split (strip line).

(** What a list of tokens asks for.  [Short] is a [vertex] or [edge] record
    with too few arguments. *)
Inductive record : Type :=
| Skip
| Vertex (a : str)
| Edge (a b : str)
| Short.

Definition classify (parts : list str) : record :=
  match parts with
  | [] => Skip
  | t :: args =>
      if decide (t = kw_vertex) then
        match args with a :: _ => Vertex a | [] => Short end
      else if decide (t = kw_edge) then
        match args with a :: b :: _ => Edge a b | _ => Short end
      else Skip
  end.

(** The identifier a [vertex] line declares and the pair an [edge] line
    gives, read off the tokens. *)
Definition vertex_of (line : str) : option str :=
  match tokens line with
  | t :: a :: _ => if decide (t = kw_vertex) then Some a else None
  | _ => None
  end.

Definition edge_of (line : str) : option (str * str) :=
  match tokens line with
  | t :: a :: b :: _ => if decide (t = kw_edge) then Some (a, b) else None
  | _ => None
  end.

(** A line the loop passes over: blank, or with a first token that is
    neither [vertex] nor [edge]. *)
Definition ignored (line : str) : Prop :=
  match tokens line with
  | [] => True
  | t :: _ => t ≠ kw_vertex ∧ t ≠ kw_edge
  end.

(** [with_ignored ls ls']: [ls'] is [ls] with ignored lines inserted, any
    number of them and anywhere. *)
Inductive with_ignored : list str → list str → Prop :=
| wi_nil : with_ignored [] []
| wi_keep l ls ls' : with_ignored ls ls' → with_ignored (l :: ls) (l :: ls')
| wi_insert l ls ls' : ignored l → with_ignored ls ls' → with_ignored ls (l :: ls').

(** The tokens a record needs: the keyword and its one or two arguments. *)
Definition required (parts : list str) : list str :=
  match parts with
  | [] => []
  | t :: _ =>
      if decide (t = kw_vertex) then take 2 parts
      else if decide (t = kw_edge) then take 3 parts
      else parts
  end.

Definition result_map {A B} (f : A → B) (m : result A) : result B :=
  x ←! m; Ok (f x).

(** Where a line can be inserted in a text: at its start or after a line
    feed; and a text that can be the body of one line. *)
Definition line_start (pre : str) : Prop := pre = [] ∨ ∃ p, pre = p ++ [LF].

Definition no_newline (l : str) : Prop := Forall (λ c, c ≠ LF ∧ c ≠ CR) l.

(** ** Sample texts *)

Definition id_A : str := str_of "A".
Definition id_B : str := str_of "B".
Definition id_C : str := str_of "C".

(** The text [vertex A\nvertex B\nedge A B\n]. *)
Definition sample_graph : str :=
  str_of "vertex A" ++ [LF] ++ str_of "vertex B" ++ [LF]
  ++ str_of "edge A B" ++ [LF].

(** The text [vertex A\nedge onlyone\nvertex B\n]. *)
Definition sample_edge_short : str :=
  str_of "vertex A" ++ [LF] ++ str_of "edge onlyone" ++ [LF]
  ++ str_of "vertex B" ++ [LF].

(** The text [edge A B\nvertex\n]. *)
Definition sample_vertex_short : str :=
  str_of "edge A B" ++ [LF] ++ str_of "vertex" ++ [LF].

(** [sample_graph] with a blank line, a comment, a line of spaces (ended by
    a carriage return and a line feed) and a last line without line end. *)
Definition sample_graph_padded : str :=
  [LF] ++ str_of "vertex A" ++ [LF] ++ str_of "# two vertices" ++ [LF]
  ++ str_of "vertex B" ++ [LF] ++ str_of "   " ++ [CR; LF]
  ++ str_of "edge A B" ++ [LF] ++ str_of "vertices A B".

(** The text [vertex A\nvertex A\nvertex B\nvertex A\n]. *)
Definition sample_vertex_repeated : str :=
  str_of "vertex A" ++ [LF] ++ str_of "vertex A" ++ [LF]
  ++ str_of "vertex B" ++ [LF] ++ str_of "vertex A" ++ [LF].

(** The text [edge A B\nedge A B\nvertex A\nedge A B\n]. *)
Definition sample_edge_repeated : str :=
  str_of "edge A B" ++ [LF] ++ str_of "edge A B" ++ [LF]
  ++ str_of "vertex A" ++ [LF] ++ str_of "edge A B" ++ [LF].

(** The text [edge B A\nvertex A\nedge A B\nedge A A\n]. *)
Definition sample_edge_order : str :=
  str_of "edge B A" ++ [LF] ++ str_of "vertex A" ++ [LF]
  ++ str_of "edge A B" ++ [LF] ++ str_of "edge A A" ++ [LF].

(** The text [vertex A\nedge B C\n]: neither end of the edge is declared. *)
Definition sample_undeclared : str :=
  str_of "vertex A" ++ [LF] ++ str_of "edge B C" ++ [LF].

(** The text [vertex A x y\nedge A B extra tokens\n]. *)
Definition sample_surplus : str :=
  str_of "vertex A x y" ++ [LF] ++ str_of "edge A B extra tokens" ++ [LF].

(** The text [vertex A\nedge A B\n]. *)
Definition sample_exact : str :=
  str_of "vertex A" ++ [LF] ++ str_of "edge A B" ++ [LF].

Ltac ignored_line := vm_compute; first [exact I | split; discriminate].

(** ** Further notions used to state properties *)

(** A [vertex] or [edge] line with too few arguments. *)
Definition short (line : str) : Prop :=
  tokens line = [kw_vertex] ∨ tokens line = [kw_edge]
  ∨ ∃ a, tokens line = [kw_edge; a].

(** A run of whitespace, and a text fit to be a token: not empty and free of
    whitespace. *)
Definition whitespace (ws : str) : Prop := Forall (λ c, isspace c = true) ws.

Definition clean (t : str) : Prop := t ≠ [] ∧ Forall (λ c, isspace c = false) t.

(** The two results of parsing one file after another, put together. *)
Definition graph_app (g1 g2 : graph) : graph := (g1.1 ∪ g2.1, g1.2 ++ g2.2).

(** A text with every line feed written as carriage return, line feed. *)
Fixpoint crlf (s : str) : str :=
  match s with
  | [] => []
  | c :: s' => if c =? LF then CR :: LF :: crlf s' else c :: crlf s'
  end.

(** The lines of a file whose first token is [kw]. *)
Definition lines_of_kind (kw : str) (lines : list str) : list str :=
  filter (λ l, head (tokens l) = Some kw) lines.

(** The text [  vertex A \n\tedge A B]: indented, no line end at the end. *)
Definition sample_indented : str :=
  [0x20; 0x20] ++ str_of "vertex A " ++ [LF; 0x09] ++ str_of "edge A B".

(** The text [edge\n]. *)
Definition sample_edge_alone : str := str_of "edge" ++ [LF].

(** The text [edge A B\nvertex A\n]: the lines of [sample_exact], swapped. *)
Definition sample_exact_swapped : str :=
  str_of "edge A B" ++ [LF] ++ str_of "vertex A" ++ [LF].

(** A graph written in the format [parse_graph] reads: one [vertex <id>]
    line for each identifier, then one [edge <a> <b>] line for each pair,
    the fields one space apart and every line ended by a line feed. *)
Definition SP : N := 0x20.

Definition vertex_line (a : str) : str := kw_vertex ++ [SP] ++ a ++ [LF].

Definition edge_line (e : str * str) : str :=
  kw_edge ++ [SP] ++ e.1 ++ [SP] ++ e.2 ++ [LF].

Definition graph_text (vs : list str) (es : list (str * str)) : str :=
  concat ((vertex_line <$> vs) ++ (edge_line <$> es)).

(** * Lemmas *)

(** ** The text model on small inputs *)

Example tokens_spaces_tabs :
  tokens ([0x20; 0x20] ++ str_of "edge" ++ [0x09; 0x20] ++ id_A ++ [0xA0]
          ++ id_B ++ [0x20; LF])
  = [kw_edge; id_A; id_B].
Proof. reflexivity. Qed.

Example tokens_blank : tokens [0x20; 0x09; CR; LF] = [].
Proof. reflexivity. Qed.

Example readlines_universal :
  readlines (id_A ++ [CR; LF] ++ id_B ++ [CR; CR; LF] ++ id_C)
  = [id_A ++ [LF]; id_B ++ [LF]; [LF]; id_C].
Proof. reflexivity. Qed.

(** ** Lines of a text put together from parts *)

Lemma translate_newlines_app s1 s2 :
  last s1 ≠ Some CR →
  translate_newlines (s1 ++ s2) = translate_newlines s1 ++ translate_newlines s2.
Proof.
  induction s1 as [|c [|c' s1'] IH]; intros Hlast; [done| |].
  - cbn [app translate_newlines]. destruct (N.eqb_spec c CR) as [->|]; [done|].
    done.
  - specialize (IH Hlast). cbn [app translate_newlines] in *.
    destruct (c =? CR); [|by rewrite IH].
    destruct (c' =? LF); by rewrite IH.
Qed.

Lemma translate_newlines_ends_LF p :
  ∃ t, translate_newlines (p ++ [LF]) = t ++ [LF].
Proof.
  induction p as [|c p IH]; [by exists []|].
  destruct IH as [t Ht]. cbn [app translate_newlines].
  destruct (c =? CR); [|exists (c :: t); by rewrite Ht].
  destruct (p ++ [LF]) as [|c' rest] eqn:Hp; [by destruct p|].
  destruct (c' =? LF); [by exists t|exists (LF :: t); by rewrite Ht].
Qed.

Lemma translate_newlines_plain l :
  no_newline l → translate_newlines (l ++ [LF]) = l ++ [LF].
Proof.
  induction 1 as [|c l [_ Hc] _ IH]; [done|].
  cbn [app translate_newlines]. apply N.eqb_neq in Hc. by rewrite Hc, IH.
Qed.

Lemma lines_from_app cur t1 t2 :
  lines_from cur (t1 ++ [LF] ++ t2) = lines_from cur (t1 ++ [LF]) ++ lines_from [] t2.
Proof.
  revert cur. induction t1 as [|c t1 IH]; intros cur; [done|].
  cbn [app lines_from] in *. destruct (c =? LF); by rewrite IH.
Qed.

Lemma lines_from_plain cur l :
  no_newline l → lines_from cur (l ++ [LF]) = [rev cur ++ l ++ [LF]].
Proof.
  intros Hl. revert cur. induction Hl as [|c l [Hc _] _ IH]; intros cur.
  - done.
  - cbn [app lines_from]. apply N.eqb_neq in Hc. rewrite Hc, IH.
    cbn [rev]. by rewrite <-app_assoc.
Qed.

Lemma readlines_app pre post :
  line_start pre → readlines (pre ++ post) = readlines pre ++ readlines post.
Proof.
  intros [->|[p ->]]; [done|]. unfold readlines.
  rewrite translate_newlines_app by (by rewrite last_snoc).
  destruct (translate_newlines_ends_LF p) as [t ->].
  by rewrite <-app_assoc, lines_from_app.
Qed.

Lemma readlines_plain l : no_newline l → readlines (l ++ [LF]) = [l ++ [LF]].
Proof.
  intros Hl. unfold readlines.
  by rewrite translate_newlines_plain, lines_from_plain.
Qed.

Lemma with_ignored_refl ls : with_ignored ls ls.
Proof. induction ls; by constructor. Qed.

Lemma with_ignored_app ls ls1 ls2 :
  with_ignored ls1 ls2 → with_ignored (ls ++ ls1) (ls ++ ls2).
Proof. intros H. induction ls; [done|]. by constructor. Qed.

Lemma readlines_insert_line pre l post :
  line_start pre → no_newline l → ignored (l ++ [LF]) →
  with_ignored (readlines (pre ++ post)) (readlines (pre ++ (l ++ [LF]) ++ post)).
Proof.
  intros Hpre Hl Hign.
  rewrite !readlines_app by (done || right; by exists l).
  rewrite readlines_plain by done.
  apply with_ignored_app. apply wi_insert; [done|apply with_ignored_refl].
Qed.

(** ** The loop body, case by case *)

Section LoopBody.
Variables (vertices : gset str) (edges : list (str * str)).
Variable line : str.

(** [classify] reads the tokens the way the loop body does. *)
Lemma loop_body_classify :
  loop_body (vertices, edges) line =
  match classify (tokens line) with
  | Skip => Ok (vertices, edges)
  | Vertex a => Ok ({[ a ]} ∪ vertices, edges)
  | Edge a b => Ok (vertices, edges ++ [(a, b)])
  | Short => Raise IndexError
  end.
Proof.
  unfold loop_body, tokens, classify.
  destruct (split (strip line)) as [|t args]; [done|].
  cbn [index lookup list_lookup bind].
  destruct (decide (t = kw_vertex)).
  { by destruct args. }
  destruct (decide (t = kw_edge)); [|done].
  by destruct args as [|a [|b rest]].
Qed.

Lemma loop_body_vertex a rest :
  tokens line = kw_vertex :: a :: rest →
  loop_body (vertices, edges) line = Ok ({[ a ]} ∪ vertices, edges).
Proof. intros H. by rewrite loop_body_classify, H. Qed.

Lemma loop_body_edge a b rest :
  tokens line = kw_edge :: a :: b :: rest →
  loop_body (vertices, edges) line = Ok (vertices, edges ++ [(a, b)]).
Proof. intros H. by rewrite loop_body_classify, H. Qed.

Lemma classify_ignored : ignored line → classify (tokens line) = Skip.
Proof.
  unfold ignored, classify. destruct (tokens line) as [|t args]; [done|].
  intros [Hv He]. by rewrite !decide_False.
Qed.

Lemma loop_body_ignored :
  ignored line → loop_body (vertices, edges) line = Ok (vertices, edges).
Proof. intros H. by rewrite loop_body_classify, classify_ignored. Qed.
End LoopBody.

(** ** The per-line views agree with [classify] *)

Lemma kw_edge_not_vertex : kw_edge ≠ kw_vertex.
Proof. discriminate. Qed.

Lemma classify_vertex_of line :
  vertex_of line = match classify (tokens line) with Vertex a => Some a | _ => None end.
Proof.
  unfold vertex_of, classify. destruct (tokens line) as [|t [|a rest]]; [done| |].
  - destruct (decide (t = kw_vertex)); [done|]. by destruct (decide (t = kw_edge)).
  - destruct (decide (t = kw_vertex)); [done|].
    destruct (decide (t = kw_edge)); [|done]. by destruct rest.
Qed.

Lemma classify_edge_of line :
  edge_of line = match classify (tokens line) with Edge a b => Some (a, b) | _ => None end.
Proof.
  unfold edge_of, classify. destruct (tokens line) as [|t [|a [|b rest]]]; [done| | |].
  - destruct (decide (t = kw_vertex)); [done|]. by destruct (decide (t = kw_edge)).
  - destruct (decide (t = kw_vertex)); [done|]. by destruct (decide (t = kw_edge)).
  - destruct (decide (t = kw_edge)) as [->|]; [|by destruct (decide (t = kw_vertex))].
    by rewrite decide_False by apply kw_edge_not_vertex.
Qed.

Lemma vertex_of_take line a :
  vertex_of line = Some a ↔ take 2 (tokens line) = [kw_vertex; a].
Proof.
  unfold vertex_of. destruct (tokens line) as [|t [|a' rest]]; simpl; rewrite ?take_0; [done..|].
  destruct (decide (t = kw_vertex)) as [->|]; split; congruence.
Qed.

Lemma edge_of_take line a b :
  edge_of line = Some (a, b) ↔ take 3 (tokens line) = [kw_edge; a; b].
Proof.
  unfold edge_of. destruct (tokens line) as [|t [|a' [|b' rest]]]; simpl; rewrite ?take_0; [done..|].
  destruct (decide (t = kw_edge)) as [->|]; split; congruence.
Qed.

Lemma classify_required parts : classify (required parts) = classify parts.
Proof.
  unfold required. destruct parts as [|t args]; [done|].
  destruct (decide (t = kw_vertex)) as [->|Hv].
  { by destruct args. }
  destruct (decide (t = kw_edge)) as [->|He]; [|done].
  by destruct args as [|a [|b rest]].
Qed.

(** ** The whole loop *)

(** A record with too few arguments anywhere in the file ends the loop with
    [IndexError], whatever came before it. *)
Lemma for_lines_short st lines line :
  line ∈ lines → classify (tokens line) = Short →
  for_lines st lines = Raise IndexError.
Proof.
  intros Hin Hshort. revert st.
  induction Hin as [line rest|line l rest Hin IH]; intros [vs es]; cbn [for_lines].
  - by rewrite loop_body_classify, Hshort.
  - destruct (loop_body (vs, es) l) as [st'|[]]; cbn [bind]; [by apply IH|done].
Qed.

(** When the loop finishes, no line was short, the vertex set has gained the
    argument of every [vertex] line and the edge list the pair of every
    [edge] line, in file order. *)
Lemma for_lines_Ok vs es lines vs' es' :
  for_lines (vs, es) lines = Ok (vs', es') ↔
  Forall (λ l, classify (tokens l) ≠ Short) lines
  ∧ vs' = list_to_set (omap vertex_of lines) ∪ vs
  ∧ es' = es ++ omap edge_of lines.
Proof.
  revert vs es vs' es'.
  induction lines as [|l rest IH]; intros vs es vs' es'; cbn [for_lines omap list_omap].
  - rewrite app_nil_r, list_to_set_nil, (left_id_L ∅ (∪)).
    split; [intros [= <- <-]; by split|intros (_ & -> & ->); done].
  - rewrite loop_body_classify, Forall_cons.
    rewrite classify_vertex_of, classify_edge_of.
    destruct (classify (tokens l)) as [|a|a b|]; cbn [bind].
    + rewrite IH. intuition congruence.
    + rewrite IH, list_to_set_cons.
      replace ({[a]} ∪ list_to_set (omap vertex_of rest) ∪ vs)
        with (list_to_set (omap vertex_of rest) ∪ ({[a]} ∪ vs) : gset str)
        by (by rewrite (assoc_L (∪)), (comm_L (∪) _ {[a]})).
      intuition congruence.
    + rewrite IH, <-app_assoc. cbn [app]. intuition congruence.
    + split; [done|]. by intros [[] _].
Qed.

(** The edge list the loop ends with does not look at the vertex set. *)
Lemma for_lines_edges_any_vertices vs1 vs2 es lines :
  result_map snd (for_lines (vs1, es) lines)
  = result_map snd (for_lines (vs2, es) lines).
Proof.
  revert vs1 vs2 es. induction lines as [|l rest IH]; intros vs1 vs2 es; [done|].
  cbn [for_lines]. rewrite !loop_body_classify.
  destruct (classify (tokens l)); cbn [bind]; by try apply IH.
Qed.

Lemma for_lines_with_ignored st ls ls' :
  with_ignored ls ls' → for_lines st ls' = for_lines st ls.
Proof.
  intros H. revert st.
  induction H as [|l ls ls' _ IH|l ls ls' Hl _ IH]; intros [vs es]; cbn [for_lines].
  - done.
  - destruct (loop_body (vs, es) l); cbn [bind]; [apply IH|done].
  - rewrite loop_body_ignored by done. apply IH.
Qed.

Lemma for_lines_replicate vs es line a b n :
  take 3 (tokens line) = [kw_edge; a; b] →
  for_lines (vs, es) (replicate n line) = Ok (vs, es ++ replicate n (a, b)).
Proof.
  intros Hline. apply edge_of_take in Hline. rewrite classify_edge_of in Hline.
  revert es. induction n as [|n IH]; intros es; cbn [replicate for_lines].
  - by rewrite app_nil_r.
  - rewrite loop_body_classify.
    destruct (classify (tokens line)) as [| |a' b'|]; try done.
    injection Hline as -> ->. cbn [bind].
    by rewrite IH, <-app_assoc.
Qed.

(** ** Counting edge lines *)

Lemma edge_line_has_edge line :
  classify (tokens line) ≠ Short →
  head (tokens line) = Some kw_edge ↔ is_Some (edge_of line).
Proof.
  rewrite classify_edge_of. unfold classify.
  destruct (tokens line) as [|t args]; cbn [head].
  { intros _. split; [done|]. by intros [? [=]]. }
  destruct (decide (t = kw_vertex)) as [->|Hv].
  { intros _. split.
    - intros H. destruct kw_edge_not_vertex. congruence.
    - destruct args; by intros [? [=]]. }
  destruct (decide (t = kw_edge)) as [->|He].
  - destruct args as [|a [|b rest]]; try done; intros _; split; first [by eexists|done].
  - intros _. split; [congruence|]. by intros [? [=]].
Qed.

Lemma length_omap_edge_of lines :
  Forall (λ l, classify (tokens l) ≠ Short) lines →
  length (omap edge_of lines)
  = length (filter (λ l, head (tokens l) = Some kw_edge) lines).
Proof.
  induction 1 as [|l rest Hl _ IH]; [done|].
  cbn [omap list_omap]. rewrite filter_cons.
  pose proof (edge_line_has_edge l Hl) as Hiff.
  destruct (edge_of l) as [p|] eqn:Hp.
  - rewrite decide_True by (apply Hiff; by eexists). cbn [length]. by rewrite IH.
  - rewrite decide_False; [done|]. intros H. apply Hiff in H. by destruct H.
Qed.

Lemma count_omap_edge_of lines a b :
  count_occ (decide_rel (=)) (omap edge_of lines) (a, b)
  = length (filter (λ l, take 3 (tokens l) = [kw_edge; a; b]) lines).
Proof.
  induction lines as [|l rest IH]; [done|].
  cbn [omap list_omap]. rewrite filter_cons.
  destruct (edge_of l) as [p|] eqn:Hp.
  - destruct (decide (p = (a, b))) as [->|Hne].
    + rewrite count_occ_cons_eq by done.
      rewrite decide_True by (by apply edge_of_take). cbn [length]. by rewrite IH.
    + rewrite count_occ_cons_neq by done.
      rewrite decide_False; [done|]. intros H. apply edge_of_take in H. congruence.
  - rewrite decide_False; [done|]. intros H. apply edge_of_take in H. congruence.
Qed.

Lemma count_occ_NoDup_1 (l : list str) a :
  NoDup l → a ∈ l → count_occ (decide_rel (=)) l a = 1%nat.
Proof.
  intros Hnd Hin. apply NoDup_ListNoDup in Hnd.
  apply (proj1 (NoDup_count_occ' (decide_rel (=)) l) Hnd).
  by apply list_elem_of_In.
Qed.

Lemma for_lines_same_required st ls ls' :
  Forall2 (λ l l', required (tokens l) = required (tokens l')) ls ls' →
  for_lines st ls = for_lines st ls'.
Proof.
  intros H. revert st.
  induction H as [|l l' ls ls' Hl _ IH]; intros [vs es]; [done|].
  cbn [for_lines]. rewrite !loop_body_classify.
  rewrite <-(classify_required (tokens l)), Hl, classify_required.
  destruct (classify (tokens l')); cbn [bind]; by try apply IH.
Qed.

(** * Properties of [parse_graph] *)

(** ** C1 *)

(** C1: parsing the text [vertex A\nvertex B\nedge A B\n] returns the vertex
    set {A, B} and the edge sequence [(A, B)]. *)
Theorem parse_graph_sample :
  parse_graph sample_graph = Ok ({[ id_A; id_B ]}, [(id_A, id_B)]).
Proof. vm_compute. reflexivity. Qed.

(** ** C2 *)

(** C2: a file with a line whose tokens are [edge] and exactly one more
    token makes [parse_graph] raise [IndexError]; the line is neither
    accepted nor skipped. *)
Theorem edge_one_argument_raises (content line a : str) :
  line ∈ readlines content →
  tokens line = [kw_edge; a] →
  parse_graph content = Raise IndexError.
Proof.
  intros Hin Htok. apply (for_lines_short _ _ line Hin).
  unfold classify. rewrite Htok.
  by rewrite decide_False, decide_True by (done || apply kw_edge_not_vertex).
Qed.

Lemma edge_one_argument_raises_witness :
  parse_graph sample_edge_short = Raise IndexError.
Proof.
  apply (edge_one_argument_raises sample_edge_short
           (str_of "edge onlyone" ++ [LF]) (str_of "onlyone")).
  - vm_compute. apply list_elem_of_further, list_elem_of_here.
  - vm_compute. reflexivity.
Defined.

(** ** C9 *)

(** C9: a file with a line whose only token is [vertex] makes [parse_graph]
    raise [IndexError], as an [edge] line with a missing argument does. *)
Theorem vertex_without_identifier_raises (content line : str) :
  line ∈ readlines content →
  tokens line = [kw_vertex] →
  parse_graph content = Raise IndexError.
Proof.
  intros Hin Htok. apply (for_lines_short _ _ line Hin).
  unfold classify. rewrite Htok. by rewrite decide_True.
Qed.

Lemma vertex_without_identifier_raises_witness :
  parse_graph sample_vertex_short = Raise IndexError.
Proof.
  apply (vertex_without_identifier_raises sample_vertex_short
           (str_of "vertex" ++ [LF])).
  - vm_compute. apply list_elem_of_further, list_elem_of_here.
  - vm_compute. reflexivity.
Defined.

(** ** C3 *)

(** C3: inserting blank lines and lines whose first token is neither
    [vertex] nor [edge], anywhere among the lines of a file, leaves the
    result of [parse_graph] as it was: the same vertex set and edge
    sequence, or the same exception.  This holds for any number of such
    lines among the lines read from the file, and for one such line put
    into the text at the start of a line. *)
Theorem ignored_lines_change_nothing :
  (∀ content content' : str,
     with_ignored (readlines content) (readlines content') →
     parse_graph content' = parse_graph content)
  ∧ (∀ pre l post : str,
       line_start pre → no_newline l → ignored (l ++ [LF]) →
       parse_graph (pre ++ (l ++ [LF]) ++ post) = parse_graph (pre ++ post)).
Proof.
  split.
  - intros content content'. apply for_lines_with_ignored.
  - intros pre l post Hpre Hl Hign.
    by apply for_lines_with_ignored, readlines_insert_line.
Qed.

Lemma ignored_lines_change_nothing_witness :
  parse_graph sample_graph_padded = parse_graph sample_graph
  ∧ length (readlines sample_graph_padded) = 7%nat
  ∧ parse_graph ((str_of "vertex A" ++ [LF]) ++ (str_of "# edge A B" ++ [LF])
                 ++ str_of "edge A B")
    = parse_graph ((str_of "vertex A" ++ [LF]) ++ str_of "edge A B").
Proof.
  destruct ignored_lines_change_nothing as [Hlines Htext].
  split; [|split; [reflexivity|]].
  - apply Hlines.
    let ls := eval vm_compute in (readlines sample_graph) in
    change (readlines sample_graph) with ls.
    let ls := eval vm_compute in (readlines sample_graph_padded) in
    change (readlines sample_graph_padded) with ls.
    apply wi_insert; [ignored_line|].
    apply wi_keep.
    apply wi_insert; [ignored_line|].
    apply wi_keep.
    apply wi_insert; [ignored_line|].
    apply wi_keep.
    apply wi_insert; [ignored_line|].
    apply wi_nil.
  - apply Htext.
    + right. by exists (str_of "vertex A").
    + vm_compute. repeat (constructor; [split; discriminate|]). constructor.
    + ignored_line.
Defined.

(** ** C4 *)

(** C4: the vertex set [parse_graph] returns lists no identifier twice; it
    holds the identifiers the [vertex] lines of the file declare and no
    others, and an identifier declared by one or by several [vertex] lines
    has exactly one entry. *)
Theorem vertices_no_duplicates (content : str) vs es :
  parse_graph content = Ok (vs, es) →
  NoDup (elements vs)
  ∧ ∀ a : str,
      (a ∈ vs ↔
       ∃ line, line ∈ readlines content ∧ take 2 (tokens line) = [kw_vertex; a])
      ∧ (a ∈ vs → count_occ (decide_rel (=)) (elements vs) a = 1%nat).
Proof.
  intros Hok. apply for_lines_Ok in Hok as (_ & Hvs & _).
  split; [apply NoDup_elements|].
  intros a. split.
  - rewrite Hvs, (right_id_L ∅ (∪)), elem_of_list_to_set, list_elem_of_omap.
    by setoid_rewrite vertex_of_take.
  - intros Ha. apply count_occ_NoDup_1; [apply NoDup_elements|].
    by apply elem_of_elements.
Qed.

Lemma vertices_no_duplicates_witness :
  parse_graph sample_vertex_repeated = Ok ({[ id_A; id_B ]}, [])
  ∧ count_occ (decide_rel (=)) (elements ({[ id_A; id_B ]} : gset str)) id_A = 1%nat.
Proof.
  assert (parse_graph sample_vertex_repeated = Ok ({[ id_A; id_B ]}, []))
    as Hok by (vm_compute; reflexivity).
  split; [exact Hok|].
  destruct (vertices_no_duplicates sample_vertex_repeated _ _ Hok) as [_ Hall].
  destruct (Hall id_A) as [Hin Hcount].
  apply Hcount, Hin.
  exists (str_of "vertex A" ++ [LF]). split.
  - vm_compute. apply list_elem_of_here.
  - vm_compute. reflexivity.
Defined.

(** ** C5 *)

(** C5: edges are not deduplicated.  When [parse_graph] returns, the edge
    sequence is as long as the file has lines whose first token is [edge],
    a pair (a, b) occurs in it as many times as there are lines whose first
    three tokens are [edge a b], and n copies of such a line make the loop
    append n copies of (a, b). *)
Theorem edges_not_deduplicated (content : str) vs es :
  parse_graph content = Ok (vs, es) →
  length es
  = length (filter (λ l, head (tokens l) = Some kw_edge) (readlines content))
  ∧ (∀ a b : str,
       count_occ (decide_rel (=)) es (a, b)
       = length (filter (λ l, take 3 (tokens l) = [kw_edge; a; b])
                   (readlines content)))
  ∧ (∀ (n : nat) (line a b : str) vs0 es0,
       take 3 (tokens line) = [kw_edge; a; b] →
       for_lines (vs0, es0) (replicate n line)
       = Ok (vs0, es0 ++ replicate n (a, b))).
Proof.
  intros Hok. apply for_lines_Ok in Hok as (Hwf & _ & ->). cbn [app].
  split; [by apply length_omap_edge_of|].
  split; [intros a b; apply count_omap_edge_of|].
  intros n line a b vs0 es0. apply for_lines_replicate.
Qed.

Lemma edges_not_deduplicated_witness :
  parse_graph sample_edge_repeated
  = Ok ({[ id_A ]}, [(id_A, id_B); (id_A, id_B); (id_A, id_B)])
  ∧ length (filter (λ l, take 3 (tokens l) = [kw_edge; id_A; id_B])
              (readlines sample_edge_repeated)) = 3%nat.
Proof.
  assert (parse_graph sample_edge_repeated
          = Ok ({[ id_A ]}, [(id_A, id_B); (id_A, id_B); (id_A, id_B)]))
    as Hok by (vm_compute; reflexivity).
  split; [exact Hok|].
  destruct (edges_not_deduplicated sample_edge_repeated _ _ Hok) as (_ & Hcount & _).
  rewrite <-Hcount. vm_compute. reflexivity.
Defined.

(** ** C6 *)

(** C6: a line whose first three tokens are [edge a b] makes the loop append
    the pair (a, b), source first, at the end of the edge list and change
    nothing else; the edge sequence [parse_graph] returns is the pairs of
    the [edge] lines in the order of the lines in the file. *)
Theorem edges_in_file_order :
  (∀ vs es (line a b : str),
     take 3 (tokens line) = [kw_edge; a; b] →
     loop_body (vs, es) line = Ok (vs, es ++ [(a, b)]))
  ∧ (∀ (content : str) vs es,
       parse_graph content = Ok (vs, es) →
       es = omap edge_of (readlines content)).
Proof.
  split.
  - intros vs es line a b Hline.
    apply edge_of_take in Hline. rewrite classify_edge_of in Hline.
    rewrite loop_body_classify.
    destruct (classify (tokens line)); congruence.
  - intros content vs es Hok. by apply for_lines_Ok in Hok as (_ & _ & ->).
Qed.

Lemma edges_in_file_order_witness :
  loop_body (∅, [(id_B, id_A)]) (str_of "edge A B" ++ [LF])
  = Ok (∅, [(id_B, id_A); (id_A, id_B)])
  ∧ omap edge_of (readlines sample_edge_order)
    = [(id_B, id_A); (id_A, id_B); (id_A, id_A)].
Proof.
  destruct edges_in_file_order as [Hstep Hall]. split.
  - apply (Hstep ∅ [(id_B, id_A)] (str_of "edge A B" ++ [LF]) id_A id_B).
    vm_compute. reflexivity.
  - symmetry. apply (Hall sample_edge_order {[ id_A ]}).
    vm_compute. reflexivity.
Defined.

(** ** C7 *)

(** C7: the end points of an edge are not checked against the vertex set.
    Whether the loop finishes, and the edge list it finishes with, do not
    depend on the vertex set; and when [parse_graph] returns, every line
    whose first three tokens are [edge a b] has its pair (a, b) in the edge
    sequence, whether or not a and b are in the vertex set. *)
Theorem edges_not_validated :
  (∀ vs1 vs2 es (lines : list str),
     result_map snd (for_lines (vs1, es) lines)
     = result_map snd (for_lines (vs2, es) lines))
  ∧ (∀ (content : str) vs es (line a b : str),
       parse_graph content = Ok (vs, es) →
       line ∈ readlines content →
       take 3 (tokens line) = [kw_edge; a; b] →
       (a, b) ∈ es).
Proof.
  split; [apply for_lines_edges_any_vertices|].
  intros content vs es line a b Hok Hin Hline.
  apply for_lines_Ok in Hok as (_ & _ & ->). cbn [app].
  apply list_elem_of_omap. exists line. split; [done|]. by apply edge_of_take.
Qed.

Lemma edges_not_validated_witness :
  parse_graph sample_undeclared = Ok ({[ id_A ]}, [(id_B, id_C)])
  ∧ (id_B ∉ ({[ id_A ]} : gset str))
  ∧ (id_C ∉ ({[ id_A ]} : gset str))
  ∧ ((id_B, id_C) ∈ [(id_B, id_C)]).
Proof.
  assert (parse_graph sample_undeclared = Ok ({[ id_A ]}, [(id_B, id_C)]))
    as Hok by (vm_compute; reflexivity).
  split; [exact Hok|].
  split; [by apply not_elem_of_singleton|].
  split; [by apply not_elem_of_singleton|].
  apply (proj2 edges_not_validated sample_undeclared {[ id_A ]} _
           (str_of "edge B C" ++ [LF]) _ _ Hok).
  - vm_compute. apply list_elem_of_further, list_elem_of_here.
  - vm_compute. reflexivity.
Defined.

(** ** C10 *)

(** C10: tokens after the ones a record needs are not looked at.  A line
    whose first two tokens are [vertex a] adds a to the vertex set and
    does nothing else, a line whose first three tokens are [edge a b]
    appends (a, b) and does nothing else, whatever follows them; and two
    files whose lines agree on the tokens each record needs give the same
    result. *)
Theorem surplus_tokens_ignored :
  (∀ vs es (line a : str),
     take 2 (tokens line) = [kw_vertex; a] →
     loop_body (vs, es) line = Ok ({[ a ]} ∪ vs, es))
  ∧ (∀ vs es (line a b : str),
       take 3 (tokens line) = [kw_edge; a; b] →
       loop_body (vs, es) line = Ok (vs, es ++ [(a, b)]))
  ∧ (∀ content content' : str,
       Forall2 (λ l l', required (tokens l) = required (tokens l'))
         (readlines content) (readlines content') →
       parse_graph content = parse_graph content').
Proof.
  split; [|split].
  - intros vs es line a Hline.
    destruct (tokens line) as [|t [|a' rest]] eqn:Htok; try done.
    simpl in Hline. rewrite take_0 in Hline. injection Hline as -> ->.
    by apply (loop_body_vertex _ _ _ _ rest).
  - intros vs es line a b Hline.
    destruct (tokens line) as [|t [|a' [|b' rest]]] eqn:Htok; try done.
    simpl in Hline. rewrite take_0 in Hline. injection Hline as -> -> ->.
    by apply (loop_body_edge _ _ _ _ _ rest).
  - intros content content'. apply for_lines_same_required.
Qed.

Lemma surplus_tokens_ignored_witness :
  loop_body (∅, []) (str_of "vertex A x y" ++ [LF]) = Ok ({[ id_A ]} ∪ ∅, [])
  ∧ loop_body (∅, []) (str_of "edge A B extra tokens" ++ [LF])
    = Ok (∅, [] ++ [(id_A, id_B)])
  ∧ parse_graph sample_surplus = parse_graph sample_exact.
Proof.
  destruct surplus_tokens_ignored as (Hv & He & Hall).
  split; [|split].
  - apply Hv. vm_compute. reflexivity.
  - apply He. vm_compute. reflexivity.
  - apply Hall.
    let ls := eval vm_compute in (readlines sample_surplus) in
    change (readlines sample_surplus) with ls.
    let ls := eval vm_compute in (readlines sample_exact) in
    change (readlines sample_exact) with ls.
    repeat (constructor; [vm_compute; reflexivity|]). constructor.
Defined.

(** * Further properties of [parse_graph] *)

(** ** Whitespace and tokens *)

Lemma split_from_lstrip s : split_from [] (lstrip s) = split_from [] s.
Proof.
  induction s as [|c s IH]; [done|].
  cbn [lstrip]. destruct (isspace c) eqn:Hc.
  - cbn [split_from]. by rewrite Hc.
  - done.
Qed.

Lemma split_from_whitespace cur ws :
  whitespace ws → split_from cur ws = split_from cur [].
Proof.
  intros Hws. revert cur. induction Hws as [|c ws Hc _ IH]; intros cur; [done|].
  cbn [split_from]. rewrite Hc, (IH []). by destruct cur.
Qed.

Lemma split_from_app_whitespace cur s ws :
  whitespace ws → split_from cur (s ++ ws) = split_from cur s.
Proof.
  intros Hws. revert cur. induction s as [|c s IH]; intros cur.
  - by apply split_from_whitespace.
  - cbn [app split_from]. destruct (isspace c); [|apply IH].
    rewrite (IH []). by destruct cur.
Qed.

Lemma split_whitespace_app ws s :
  whitespace ws → split_from [] (ws ++ s) = split_from [] s.
Proof.
  induction 1 as [|c ws Hc _ IH]; [done|].
  cbn [app split_from]. rewrite Hc. exact IH.
Qed.

Lemma lstrip_whitespace s : ∃ ws, whitespace ws ∧ s = ws ++ lstrip s.
Proof.
  induction s as [|c s (ws & Hws & IH)].
  { exists []. split; [apply List.Forall_nil|done]. }
  cbn [lstrip]. destruct (isspace c) eqn:Hc.
  - exists (c :: ws). split; [by apply List.Forall_cons|]. cbn [app]. by rewrite <-IH.
  - exists []. split; [apply List.Forall_nil|done].
Qed.

Lemma rstrip_whitespace s : ∃ ws, whitespace ws ∧ s = rstrip s ++ ws.
Proof.
  destruct (lstrip_whitespace (rev s)) as (ws & Hws & Hs).
  exists (rev ws). split.
  - unfold whitespace in *. by apply Forall_rev.
  - unfold rstrip. by rewrite <-rev_app_distr, <-Hs, rev_involutive.
Qed.

(** [strip()] before [split()] changes nothing. *)
Lemma tokens_split line : tokens line = split line.
Proof.
  unfold tokens, split, strip.
  destruct (rstrip_whitespace (lstrip line)) as (ws & Hws & Hs).
  rewrite <-(split_from_lstrip line). rewrite Hs at 2.
  by rewrite split_from_app_whitespace.
Qed.

Lemma tokens_padded ws1 line ws2 :
  whitespace ws1 → whitespace ws2 → tokens (ws1 ++ line ++ ws2) = tokens line.
Proof.
  intros H1 H2. rewrite !tokens_split. unfold split.
  by rewrite split_whitespace_app, split_from_app_whitespace.
Qed.

Lemma loop_body_same_tokens st l l' :
  tokens l = tokens l' → loop_body st l = loop_body st l'.
Proof. destruct st as [vs es]. intros H. by rewrite !loop_body_classify, H. Qed.

Lemma split_from_clean cur s :
  Forall (λ c, isspace c = false) cur → Forall clean (split_from cur s).
Proof.
  revert cur. induction s as [|c s IH]; intros cur Hcur; cbn [split_from].
  - destruct cur as [|c' cur']; [by constructor|]. constructor; [|by constructor].
    split; [|by apply Forall_rev].
    intros H. apply (f_equal length) in H. rewrite length_rev in H. done.
  - destruct (isspace c) eqn:Hc.
    + destruct cur as [|c' cur']; [by apply IH|]. constructor; [|by apply IH].
      split; [|by apply Forall_rev].
      intros H. apply (f_equal length) in H. rewrite length_rev in H. done.
    + apply IH. by constructor.
Qed.

Lemma tokens_clean line : Forall clean (tokens line).
Proof. rewrite tokens_split. by apply split_from_clean. Qed.

Lemma vertex_of_token line a : vertex_of line = Some a → a ∈ tokens line.
Proof.
  unfold vertex_of. destruct (tokens line) as [|t [|a' rest]]; try done.
  destruct (decide (t = kw_vertex)); [|done]. intros [= ->].
  apply list_elem_of_further, list_elem_of_here.
Qed.

Lemma edge_of_token line a b :
  edge_of line = Some (a, b) → a ∈ tokens line ∧ b ∈ tokens line.
Proof.
  unfold edge_of. destruct (tokens line) as [|t [|a' [|b' rest]]]; try done.
  destruct (decide (t = kw_edge)); [|done]. intros [= -> ->]. split.
  - apply list_elem_of_further, list_elem_of_here.
  - do 2 apply list_elem_of_further. apply list_elem_of_here.
Qed.

(** ** The loop on parts of a file *)

Lemma classify_short line : classify (tokens line) = Short ↔ short line.
Proof.
  unfold classify, short. destruct (tokens line) as [|t args].
  { split; [done|]. by intros [|[|[]]]. }
  destruct (decide (t = kw_vertex)) as [->|Hv].
  { destruct args as [|a rest].
    - split; [by left|done].
    - split; [done|]. by intros [|[|[]]]. }
  destruct (decide (t = kw_edge)) as [->|He].
  - destruct args as [|a [|b rest]].
    + split; [by right; left|done].
    + split; [by right; right; exists a|done].
    + split; [done|]. by intros [|[|[]]].
  - split; [done|]. intros [H|[H|[a H]]]; congruence.
Qed.

Lemma for_lines_Raise st lines e :
  for_lines st lines = Raise e →
  ∃ line, line ∈ lines ∧ classify (tokens line) = Short.
Proof.
  revert st. induction lines as [|l rest IH]; intros [vs es]; [done|].
  cbn [for_lines]. rewrite loop_body_classify.
  destruct (classify (tokens l)) eqn:Hl; cbn [bind].
  1-3: intros (line & Hin & Hline)%IH; exists line; split;
    [by apply list_elem_of_further|done].
  intros _. exists l. split; [apply list_elem_of_here|done].
Qed.

Lemma for_lines_app st l1 l2 :
  for_lines st (l1 ++ l2) = (st' ←! for_lines st l1; for_lines st' l2).
Proof.
  revert st. induction l1 as [|l l1 IH]; intros st; [done|].
  cbn [app for_lines]. destruct (loop_body st l); cbn [bind]; [apply IH|done].
Qed.

(** Starting the loop on a state is starting it on the empty one and adding
    what it finds to the state. *)
Lemma for_lines_from_empty vs es lines :
  for_lines (vs, es) lines
  = (g ←! for_lines (∅, []) lines; Ok (g.1 ∪ vs, es ++ g.2)).
Proof.
  destruct (for_lines (∅, []) lines) as [[vs' es']|e] eqn:H0; cbn [bind fst snd].
  - apply for_lines_Ok in H0 as (Hwf & -> & ->). apply for_lines_Ok.
    split; [done|]. by rewrite (right_id_L ∅ (∪)).
  - destruct (for_lines_Raise _ _ _ H0) as (line & Hin & Hline).
    rewrite (for_lines_short _ _ _ Hin Hline). by destruct e.
Qed.

Lemma translate_newlines_CR_LF p :
  translate_newlines (p ++ [CR; LF]) = translate_newlines (p ++ [CR]).
Proof.
  induction p as [|c [|c' p] IH]; [done| |].
  - cbn [app translate_newlines] in *. by destruct (c =? CR).
  - cbn [app translate_newlines] in *. destruct (c =? CR); [|by rewrite IH].
    destruct (c' =? LF); by rewrite IH.
Qed.

Lemma translate_newlines_no_CR s :
  Forall (λ c, c ≠ CR) s → translate_newlines s = s.
Proof.
  induction 1 as [|c s Hc _ IH]; [done|].
  cbn [translate_newlines]. apply N.eqb_neq in Hc. by rewrite Hc, IH.
Qed.

Lemma translate_newlines_crlf s :
  Forall (λ c, c ≠ CR) s → translate_newlines (crlf s) = s.
Proof.
  induction 1 as [|c s Hc _ IH]; [done|].
  cbn [crlf]. destruct (N.eqb_spec c LF) as [->|Hlf].
  - cbn. by rewrite IH.
  - cbn [translate_newlines]. apply N.eqb_neq in Hc. by rewrite Hc, IH.
Qed.

(** A line feed after the last character of a text does not change what
    the loop does with its lines. *)
Lemma for_lines_final_LF st cur t :
  for_lines st (lines_from cur (t ++ [LF])) = for_lines st (lines_from cur t).
Proof.
  revert st cur. induction t as [|c t IH]; intros st cur.
  - cbn [app lines_from]. change (LF =? LF) with true. cbn [rev for_lines].
    destruct cur as [|c0 cur0].
    + cbn [rev app]. destruct st as [vs es].
      by rewrite loop_body_ignored by (by vm_compute).
    + set (cur := c0 :: cur0). cbn [for_lines].
      rewrite (loop_body_same_tokens st (rev cur ++ [LF]) (rev cur)); [done|].
      apply (tokens_padded [] (rev cur) [LF]); [apply List.Forall_nil|].
      by apply List.Forall_cons; [|apply List.Forall_nil].
  - cbn [app lines_from]. destruct (c =? LF); [|apply IH].
    cbn [for_lines]. destruct (loop_body st _); cbn [bind]; [apply IH|done].
Qed.

Lemma omap_filter_all {A B} (f : A → option B) (P : A → Prop)
    `{!∀ x, Decision (P x)} (l : list A) :
  (∀ x, is_Some (f x) → P x) → omap f (filter P l) = omap f l.
Proof.
  intros HP. induction l as [|x l IH]; [done|].
  rewrite filter_cons. cbn [omap list_omap]. destruct (decide (P x)) as [|Hn].
  - cbn [omap list_omap]. by rewrite IH.
  - rewrite IH. destruct (f x) eqn:Hx; [|done]. destruct Hn. apply HP. by eexists.
Qed.

Lemma omap_filter_none {A B} (f : A → option B) (P : A → Prop)
    `{!∀ x, Decision (P x)} (l : list A) :
  (∀ x, P x → f x = None) → omap f (filter P l) = [].
Proof.
  intros HP. induction l as [|x l IH]; [done|].
  rewrite filter_cons. destruct (decide (P x)) as [Hx|]; [|done].
  cbn [omap list_omap]. by rewrite (HP x Hx).
Qed.

Lemma vertex_of_head line a : vertex_of line = Some a → head (tokens line) = Some kw_vertex.
Proof.
  unfold vertex_of. destruct (tokens line) as [|t [|a' rest]]; try done.
  by destruct (decide (t = kw_vertex)) as [->|].
Qed.

Lemma edge_of_head line p : edge_of line = Some p → head (tokens line) = Some kw_edge.
Proof.
  unfold edge_of. destruct (tokens line) as [|t [|a' [|b' rest]]]; try done.
  by destruct (decide (t = kw_edge)) as [->|].
Qed.

(** ** When [parse_graph] raises and when it returns *)

(** X1: [parse_graph] raises [IndexError] exactly when some line of the file
    is a [vertex] line without argument or an [edge] line with fewer than
    two arguments; a file without such a line is parsed, to the set of the
    identifiers its [vertex] lines declare and the list of the pairs of its
    [edge] lines. *)
Theorem parse_graph_raises_iff (content : str) :
  (parse_graph content = Raise IndexError
   ↔ ∃ line, line ∈ readlines content ∧ short line)
  ∧ ((∀ line, line ∈ readlines content → ¬ short line) →
     parse_graph content
     = Ok (list_to_set (omap vertex_of (readlines content)),
           omap edge_of (readlines content))).
Proof.
  split; [split|].
  - intros (line & Hin & Hline)%for_lines_Raise.
    exists line. split; [done|]. by apply classify_short.
  - intros (line & Hin & Hline). apply (for_lines_short _ _ line Hin).
    by apply classify_short.
  - intros Hwf. apply for_lines_Ok. split; [|split].
    + apply Forall_forall. intros line Hin Hline.
      by apply (Hwf line Hin), classify_short.
    + by rewrite (right_id_L ∅ (∪)).
    + done.
Qed.

Lemma parse_graph_raises_iff_witness :
  parse_graph sample_edge_alone = Raise IndexError
  ∧ parse_graph sample_graph
    = Ok (list_to_set (omap vertex_of (readlines sample_graph)),
          omap edge_of (readlines sample_graph)).
Proof.
  split.
  - apply (proj1 (parse_graph_raises_iff sample_edge_alone)).
    exists (str_of "edge" ++ [LF]). split.
    + vm_compute. apply list_elem_of_here.
    + right; left. vm_compute. reflexivity.
  - apply (proj2 (parse_graph_raises_iff sample_graph)).
    intros line Hin.
    let ls := eval vm_compute in (readlines sample_graph) in
    change (readlines sample_graph) with ls in Hin.
    repeat (apply elem_of_cons in Hin as [->|Hin]);
      [| | |by apply not_elem_of_nil in Hin];
      intros [H|[H|[a H]]]; vm_compute in H; discriminate H.
Defined.

(** ** One file after another *)

(** X2: parsing a text made of two texts, the first of them ending at a
    line end, is parsing the two one after the other: it raises when either
    raises, and otherwise gives the union of the two vertex sets and the
    edges of the first followed by those of the second. *)
Theorem parse_graph_app (c1 c2 : str) :
  line_start c1 →
  parse_graph (c1 ++ c2)
  = (g1 ←! parse_graph c1; g2 ←! parse_graph c2; Ok (graph_app g1 g2)).
Proof.
  intros Hc1. unfold parse_graph.
  rewrite readlines_app, for_lines_app by done.
  destruct (for_lines (∅, []) (readlines c1)) as [[vs1 es1]|e]; cbn [bind]; [|done].
  rewrite for_lines_from_empty.
  destruct (for_lines (∅, []) (readlines c2)) as [[vs2 es2]|e]; cbn [bind]; [|done].
  unfold graph_app. cbn [fst snd]. by rewrite (comm_L (∪)).
Qed.

Lemma parse_graph_app_witness :
  parse_graph (sample_exact ++ sample_undeclared)
  = Ok ({[ id_A ]}, [(id_A, id_B); (id_B, id_C)]).
Proof.
  rewrite (parse_graph_app sample_exact sample_undeclared).
  - vm_compute. reflexivity.
  - right. exists (str_of "vertex A" ++ [LF] ++ str_of "edge A B"). reflexivity.
Defined.

(** ** The order of the lines *)

(** X3: putting the lines of a file in another order does not change
    whether [parse_graph] raises, nor the vertex set it returns; the edge
    sequence keeps its pairs, each as many times, in another order. *)
Theorem parse_graph_permutation (c c' : str) :
  readlines c ≡ₚ readlines c' →
  (parse_graph c = Raise IndexError → parse_graph c' = Raise IndexError)
  ∧ (∀ vs es, parse_graph c = Ok (vs, es) →
       ∃ es', parse_graph c' = Ok (vs, es') ∧ es ≡ₚ es').
Proof.
  intros Hperm. split.
  - intros (line & Hin & Hline)%for_lines_Raise.
    rewrite Hperm in Hin. by apply (for_lines_short _ _ line Hin).
  - intros vs es (Hwf & -> & ->)%for_lines_Ok.
    exists (omap edge_of (readlines c')). split.
    + apply for_lines_Ok. split; [by rewrite <-Hperm|]. split; [|done].
      f_equal. apply list_to_set_perm_L. by rewrite Hperm.
    + cbn [app]. by rewrite Hperm.
Qed.

Lemma parse_graph_permutation_witness :
  parse_graph sample_exact_swapped = Ok ({[ id_A ]}, [(id_A, id_B)]).
Proof.
  assert (readlines sample_exact ≡ₚ readlines sample_exact_swapped) as Hperm.
  { vm_compute. apply perm_swap. }
  destruct (proj2 (parse_graph_permutation _ _ Hperm) {[ id_A ]} [(id_A, id_B)])
    as (es' & Hok & Hes).
  - vm_compute. reflexivity.
  - apply Permutation_singleton_l in Hes. subst es'. exact Hok.
Defined.

(** ** What an identifier can be *)

(** X4: the identifiers [parse_graph] returns, in the vertex set and at both
    ends of every edge, are not empty and hold no whitespace. *)
Theorem identifiers_clean (content : str) vs es :
  parse_graph content = Ok (vs, es) →
  (∀ a, a ∈ vs → clean a) ∧ (∀ a b, (a, b) ∈ es → clean a ∧ clean b).
Proof.
  intros (_ & -> & ->)%for_lines_Ok. split.
  - intros a. rewrite (right_id_L ∅ (∪)), elem_of_list_to_set, list_elem_of_omap.
    intros (line & _ & Hline%vertex_of_token).
    by apply (proj1 (Forall_forall _ _) (tokens_clean line)).
  - intros a b. cbn [app]. rewrite list_elem_of_omap.
    intros (line & _ & [Ha Hb]%edge_of_token).
    split; by apply (proj1 (Forall_forall _ _) (tokens_clean line)).
Qed.

Lemma identifiers_clean_witness :
  parse_graph sample_indented = Ok ({[ id_A ]}, [(id_A, id_B)])
  ∧ clean id_A ∧ clean id_B.
Proof.
  assert (parse_graph sample_indented = Ok ({[ id_A ]}, [(id_A, id_B)]))
    as Hok by (vm_compute; reflexivity).
  split; [exact Hok|].
  apply (proj2 (identifiers_clean _ _ _ Hok) id_A id_B), list_elem_of_here.
Defined.

(** ** Whitespace around a line *)

(** X5: whitespace before and after a line, such as an indentation, spaces
    at its end or its line end, does not change what the loop does with the
    line. *)
Theorem loop_body_padded (st : graph) (ws1 line ws2 : str) :
  whitespace ws1 → whitespace ws2 →
  loop_body st (ws1 ++ line ++ ws2) = loop_body st line.
Proof. intros H1 H2. by apply loop_body_same_tokens, tokens_padded. Qed.

Lemma loop_body_padded_witness :
  loop_body (∅, []) ([0x20; 0x09] ++ str_of "edge A B" ++ [0x20; CR; LF])
  = Ok (∅, [(id_A, id_B)]).
Proof.
  rewrite (loop_body_padded (∅, []) [0x20; 0x09] (str_of "edge A B") [0x20; CR; LF]).
  - vm_compute. reflexivity.
  - repeat (apply List.Forall_cons; [reflexivity|]). apply List.Forall_nil.
  - repeat (apply List.Forall_cons; [reflexivity|]). apply List.Forall_nil.
Defined.

(** ** Line ends *)

(** X6: a line feed added at the end of a file changes nothing: a last line
    is read the same with and without its line end, and a blank last line
    is passed over. *)
Theorem parse_graph_final_LF (content : str) :
  parse_graph (content ++ [LF]) = parse_graph content.
Proof.
  unfold parse_graph, readlines.
  destruct (decide (last content = Some CR)) as [Hcr|Hcr].
  - apply last_Some in Hcr as [p ->].
    rewrite <-app_assoc. cbn [app]. by rewrite translate_newlines_CR_LF.
  - rewrite translate_newlines_app by done. apply for_lines_final_LF.
Qed.

(** X7: a file without carriage returns and the same file with every line
    end written as carriage return, line feed give the same result. *)
Theorem parse_graph_crlf (content : str) :
  Forall (λ c, c ≠ CR) content →
  parse_graph (crlf content) = parse_graph content.
Proof.
  intros Hcr. unfold parse_graph, readlines.
  by rewrite translate_newlines_crlf, translate_newlines_no_CR.
Qed.

Lemma parse_graph_crlf_witness :
  parse_graph (crlf sample_graph) = Ok ({[ id_A; id_B ]}, [(id_A, id_B)])
  ∧ length (crlf sample_graph) = (length sample_graph + 3)%nat.
Proof.
  split; [|reflexivity].
  rewrite (parse_graph_crlf sample_graph).
  - vm_compute. reflexivity.
  - vm_compute. repeat (apply List.Forall_cons; [discriminate|]).
    apply List.Forall_nil.
Defined.

(** ** The two kinds of lines *)

(** X8: the two kinds of records do not mix.  When [parse_graph] returns,
    the loop run on the [vertex] lines of the file alone gives the same
    vertex set and no edge, and run on the [edge] lines alone it gives the
    same edge sequence and no vertex. *)
Theorem vertex_and_edge_lines_separate (content : str) vs es :
  parse_graph content = Ok (vs, es) →
  for_lines (∅, []) (lines_of_kind kw_vertex (readlines content)) = Ok (vs, [])
  ∧ for_lines (∅, []) (lines_of_kind kw_edge (readlines content)) = Ok (∅, es).
Proof.
  intros (Hwf & -> & ->)%for_lines_Ok. unfold lines_of_kind.
  assert (∀ kw, Forall (λ l, classify (tokens l) ≠ Short)
                  (filter (λ l, head (tokens l) = Some kw) (readlines content)))
    as Hfilter.
  { intros kw. apply Forall_forall. intros l [_ Hl]%list_elem_of_filter.
    by apply (proj1 (Forall_forall _ _) Hwf). }
  split; apply for_lines_Ok; (split; [apply Hfilter|]).
  - rewrite (omap_filter_all vertex_of)
      by (intros l [a Ha]; by apply (vertex_of_head l a)).
    rewrite (omap_filter_none edge_of); [done|].
    intros l Hl. destruct (edge_of l) as [p|] eqn:Hp; [|done].
    apply edge_of_head in Hp. rewrite Hp in Hl. by injection Hl.
  - rewrite (omap_filter_all edge_of)
      by (intros l [p Hp]; by apply (edge_of_head l p)).
    rewrite (omap_filter_none vertex_of); [done|].
    intros l Hl. destruct (vertex_of l) as [a|] eqn:Ha; [|done].
    apply vertex_of_head in Ha. rewrite Ha in Hl. by injection Hl.
Qed.

Lemma vertex_and_edge_lines_separate_witness :
  for_lines (∅, []) (lines_of_kind kw_vertex (readlines sample_graph))
  = Ok ({[ id_A; id_B ]}, [])
  ∧ for_lines (∅, []) (lines_of_kind kw_edge (readlines sample_graph))
    = Ok (∅, [(id_A, id_B)]).
Proof.
  apply (vertex_and_edge_lines_separate sample_graph).
  vm_compute. reflexivity.
Defined.

(** ** The fields of a line *)

Lemma split_from_separator cur ws s :
  whitespace ws → ws ≠ [] →
  split_from cur (ws ++ s) = split_from cur [] ++ split_from [] s.
Proof.
  intros Hws Hne. destruct Hws as [|c ws Hc Hws]; [done|].
  cbn [app split_from]. rewrite Hc, split_whitespace_app by done.
  by destruct cur.
Qed.

Lemma split_from_app_separator cur s1 ws s2 :
  whitespace ws → ws ≠ [] →
  split_from cur (s1 ++ ws ++ s2) = split_from cur s1 ++ split_from [] s2.
Proof.
  intros Hws Hne. revert cur. induction s1 as [|c s1 IH]; intros cur.
  - by apply (split_from_separator cur ws s2).
  - cbn [app split_from]. destruct (isspace c); [|apply IH].
    rewrite (IH []). by destruct cur.
Qed.

Lemma split_from_token cur t c rest :
  Forall (λ x, isspace x = false) t → isspace c = true →
  t ≠ [] ∨ cur ≠ [] →
  split_from cur (t ++ c :: rest) = (rev cur ++ t) :: split_from [] rest.
Proof.
  intros Ht Hc. revert cur. induction Ht as [|x t Hx _ IH]; intros cur Hne.
  - cbn [app split_from]. rewrite Hc, app_nil_r.
    destruct cur; [by destruct Hne|done].
  - cbn [app split_from]. rewrite Hx, IH by (by right).
    cbn [rev]. by rewrite <-app_assoc.
Qed.

Lemma clean_no_newline a : clean a → no_newline a.
Proof.
  intros [_ Ha]. unfold no_newline. eapply Forall_impl; [exact Ha|].
  intros c Hc. split; intros ->; discriminate Hc.
Qed.

Lemma kw_vertex_clean : clean kw_vertex.
Proof.
  split; [done|]. repeat (apply List.Forall_cons; [reflexivity|]).
  apply List.Forall_nil.
Qed.

Lemma kw_edge_clean : clean kw_edge.
Proof.
  split; [done|]. repeat (apply List.Forall_cons; [reflexivity|]).
  apply List.Forall_nil.
Qed.

Lemma tokens_vertex_line a : clean a → tokens (vertex_line a) = [kw_vertex; a].
Proof.
  intros [Hne Ha]. rewrite tokens_split. unfold split, vertex_line. cbn [app].
  rewrite (split_from_token [] kw_vertex SP)
    by (done || apply kw_vertex_clean || by left).
  rewrite (split_from_token [] a LF) by (done || by left). done.
Qed.

Lemma tokens_edge_line a b :
  clean a → clean b → tokens (edge_line (a, b)) = [kw_edge; a; b].
Proof.
  intros [Hna Ha] [Hnb Hb]. rewrite tokens_split. unfold split, edge_line.
  cbn [app fst snd].
  rewrite (split_from_token [] kw_edge SP)
    by (done || apply kw_edge_clean || by left).
  rewrite (split_from_token [] a SP) by (done || by left).
  rewrite (split_from_token [] b LF) by (done || by left). done.
Qed.

(** A text made of whole lines is read back as those lines. *)
Lemma readlines_concat (ls : list str) :
  Forall (λ l, ∃ body, no_newline body ∧ l = body ++ [LF]) ls →
  readlines (concat ls) = ls.
Proof.
  induction 1 as [|l ls (body & Hbody & ->) _ IH]; [done|].
  cbn [concat]. rewrite readlines_app by (right; by exists body).
  by rewrite readlines_plain, IH.
Qed.

Lemma vertex_line_whole a :
  clean a → ∃ body, no_newline body ∧ vertex_line a = body ++ [LF].
Proof.
  intros Ha. exists (kw_vertex ++ [SP] ++ a). split.
  - apply Forall_app. split; [apply clean_no_newline, kw_vertex_clean|].
    apply List.Forall_cons; [done|]. by apply clean_no_newline.
  - unfold vertex_line. by rewrite <-!app_assoc.
Qed.

Lemma edge_line_whole e :
  clean e.1 → clean e.2 → ∃ body, no_newline body ∧ edge_line e = body ++ [LF].
Proof.
  intros Ha Hb. exists (kw_edge ++ [SP] ++ e.1 ++ [SP] ++ e.2). split.
  - apply Forall_app. split; [apply clean_no_newline, kw_edge_clean|].
    apply List.Forall_cons; [done|].
    apply Forall_app. split; [by apply clean_no_newline|].
    apply List.Forall_cons; [done|]. by apply clean_no_newline.
  - unfold edge_line. by rewrite <-!app_assoc.
Qed.

Lemma graph_text_lines vs es :
  Forall clean vs → Forall (λ e, clean e.1 ∧ clean e.2) es →
  readlines (graph_text vs es) = (vertex_line <$> vs) ++ (edge_line <$> es).
Proof.
  intros Hvs Hes. apply readlines_concat, Forall_app. split.
  - apply Forall_fmap. eapply Forall_impl; [exact Hvs|].
    intros a Ha. by apply vertex_line_whole.
  - apply Forall_fmap. eapply Forall_impl; [exact Hes|].
    intros e [Ha Hb]. by apply edge_line_whole.
Qed.

Lemma omap_vertex_lines vs :
  Forall clean vs →
  omap vertex_of (vertex_line <$> vs) = vs ∧ omap edge_of (vertex_line <$> vs) = [].
Proof.
  induction 1 as [|a vs Ha _ [IHv IHe]]; [done|].
  cbn [fmap list_fmap omap list_omap]. unfold vertex_of at 1, edge_of at 1.
  rewrite (tokens_vertex_line a Ha), decide_True by done.
  split; [by f_equal|done].
Qed.

Lemma omap_edge_lines es :
  Forall (λ e, clean e.1 ∧ clean e.2) es →
  omap vertex_of (edge_line <$> es) = [] ∧ omap edge_of (edge_line <$> es) = es.
Proof.
  induction 1 as [|[a b] es [Ha Hb] _ [IHv IHe]]; [done|].
  cbn [fmap list_fmap omap list_omap]. unfold vertex_of at 1, edge_of at 1.
  rewrite (tokens_edge_line a b Ha Hb).
  rewrite (decide_False (P := kw_edge = kw_vertex)) by apply kw_edge_not_vertex.
  rewrite (decide_True (P := kw_edge = kw_edge)) by done.
  split; [done|by f_equal].
Qed.

(** X9: the fields of a line may be parted by any whitespace: one run of
    whitespace in a line can be replaced by another, such as a tab for a
    space or many spaces for one, without changing what the loop does. *)
Theorem loop_body_separator (st : graph) (s1 ws ws' s2 : str) :
  whitespace ws → ws ≠ [] → whitespace ws' → ws' ≠ [] →
  loop_body st (s1 ++ ws ++ s2) = loop_body st (s1 ++ ws' ++ s2).
Proof.
  intros Hws Hne Hws' Hne'. apply loop_body_same_tokens.
  rewrite !tokens_split. unfold split.
  by rewrite !split_from_app_separator.
Qed.

Lemma loop_body_separator_witness :
  loop_body (∅, []) (str_of "edge A" ++ [0x09; SP; SP] ++ str_of "B" ++ [LF])
  = Ok (∅, [(id_A, id_B)]).
Proof.
  rewrite (loop_body_separator (∅, []) (str_of "edge A") [0x09; SP; SP] [SP]
             (str_of "B" ++ [LF])).
  - vm_compute. reflexivity.
  - repeat (apply List.Forall_cons; [reflexivity|]). apply List.Forall_nil.
  - discriminate.
  - repeat (apply List.Forall_cons; [reflexivity|]). apply List.Forall_nil.
  - discriminate.
Defined.

(** ** Writing a graph and reading it back *)

(** X10: a graph whose identifiers are not empty and hold no whitespace,
    written one record a line with single spaces, is read back by
    [parse_graph] as it was: the set of its vertices and its edges in
    order. *)
Theorem parse_graph_text (vs : list str) (es : list (str * str)) :
  Forall clean vs → Forall (λ e, clean e.1 ∧ clean e.2) es →
  parse_graph (graph_text vs es) = Ok (list_to_set vs, es).
Proof.
  intros Hvs Hes. unfold parse_graph. rewrite graph_text_lines by done.
  destruct (omap_vertex_lines vs Hvs) as [Hvv Hve].
  destruct (omap_edge_lines es Hes) as [Hev Hee].
  apply for_lines_Ok. split; [|split].
  - apply Forall_app. split; apply Forall_fmap.
    + eapply Forall_impl; [exact Hvs|]. intros a Ha.
      change (classify (tokens (vertex_line a)) ≠ Short).
      rewrite (tokens_vertex_line a Ha). unfold classify.
      by rewrite decide_True.
    + eapply Forall_impl; [exact Hes|]. intros [a b] [Ha Hb].
      change (classify (tokens (edge_line (a, b))) ≠ Short).
      rewrite (tokens_edge_line a b Ha Hb). unfold classify.
      by rewrite decide_False, decide_True by (done || apply kw_edge_not_vertex).
  - by rewrite omap_app, Hvv, Hev, app_nil_r, (right_id_L ∅ (∪)).
  - by rewrite omap_app, Hve, Hee.
Qed.

Lemma parse_graph_text_witness :
  parse_graph (graph_text [id_A; id_B] [(id_A, id_B); (id_B, id_B)])
  = Ok (list_to_set [id_A; id_B], [(id_A, id_B); (id_B, id_B)])
  ∧ graph_text [id_A] [(id_A, id_B)] = sample_exact.
Proof.
  split; [|reflexivity].
  assert (∀ a, a = id_A ∨ a = id_B → clean a) as Hclean.
  { intros a [->| ->]; (split; [discriminate|]);
      (apply List.Forall_cons; [reflexivity|apply List.Forall_nil]). }
  apply parse_graph_text.
  - repeat (apply List.Forall_cons; [apply Hclean; auto|]). apply List.Forall_nil.
  - repeat (apply List.Forall_cons; [split; apply Hclean; auto|]).
    apply List.Forall_nil.
Defined.
